(** * coherence-js-client: expression nodes and the named-cache client

  A shallow embedding of the TypeScript sources

  - [src/filter/key_associated_filter.ts] (KeyAssociatedFilter, LessFilter,
    BetweenFilter),
  - [src/filter/like-filter.ts] (LikeFilter),
  - [src/processor/get-processor.ts] (GetProcessor),
  - the aggregators DistinctValuesAggregator and MinAggregator,
  - [NamedCacheClient] (the unary operations, the filter-scoped
    enumerations and the page senders),

  and the properties of the specification that concern them.

  JavaScript objects are ordered field lists, a constructor is the sequence
  of field writes it performs (so that one can count how often a field is
  written), a promise is its settlement state, and a server stream is the
  list of events it emits. *)

From Stdlib Require Import List String Ascii Bool ZArith Arith Lia.
Import ListNotations.
Local Open Scope string_scope.
Local Open Scope list_scope.

Set Warnings "-register-all".

(** ** JavaScript values and objects *)

Inductive jsvalue : Type :=
  | VUndefined
  | VNull
  | VBool (b : bool)
  | VNum (n : Z)
  | VStr (s : string)
  | VArr (items : list jsvalue)
  | VObj (fields : list (string * jsvalue)).

(** An object is the list of its own enumerable fields in insertion order. *)
Definition obj : Type := list (string * jsvalue).

(** [o[k] = v]: an existing field keeps its position, a new one is appended. *)
Fixpoint set_field (k : string) (v : jsvalue) (o : obj) : obj :=
  match o with
  | [] => [(k, v)]
  | (k', v') :: rest =>
      if String.eqb k k' then (k, v) :: rest
      else (k', v') :: set_field k v rest
  end.

Fixpoint get_field (k : string) (o : obj) : option jsvalue :=
  match o with
  | [] => None
  | (k', v') :: rest => if String.eqb k k' then Some v' else get_field k rest
  end.

Definition has_field (k : string) (o : obj) : bool :=
  match get_field k o with Some _ => true | None => false end.

(** JavaScript truthiness, as used by [if (k)], [!arg] and [a && b]. *)
Definition truthy (v : jsvalue) : bool :=
  match v with
  | VUndefined | VNull => false
  | VBool b => b
  | VNum n => negb (Z.eqb n 0)
  | VStr s => negb (String.eqb s "")
  | VArr _ | VObj _ => true
  end.

(** ** Errors and fallible results *)

Inductive error : Type :=
  | InvalidArgument (msg : string)
  | ServiceError (code : Z) (details : string)
  | DecodeError (msg : string).

Inductive result (A : Type) : Type :=
  | Ok (a : A)
  | Err (e : error).
Arguments Ok {A} a.
Arguments Err {A} e.

Definition bind {A B : Type} (r : result A) (k : A -> result B) : result B :=
  match r with
  | Ok a => k a
  | Err e => Err e
  end.

Notation "x <- r ;; k" := (bind r (fun x => k))
  (at level 61, r at next level, right associativity).

(** A parameter with a default value: [None] is the omitted argument. *)
Definition defaulted {A : Type} (d : A) (x : option A) : A :=
  match x with
  | Some a => a
  | None => d
  end.

(** ** Constructors as sequences of field writes *)

Definition write : Type := (string * jsvalue)%type.

(** The body of a constructor, super constructors first, in program order. *)
Definition script : Type := list write.

Definition construct (ws : script) : obj :=
  fold_left (fun o w => set_field (fst w) (snd w) o) ws [].

(** The reserved field that carries the type tag. *)
Definition TAG : string := "@class".

Definition tag_of (o : obj) : option jsvalue := get_field TAG o.

(** How many times a constructor assigns the type tag. *)
Definition tag_writes (ws : script) : nat :=
  List.length (List.filter (fun w => String.eqb (fst w) TAG) ws).

(** The successive values the tag takes during construction. *)
Definition tag_history (ws : script) : list jsvalue :=
  map snd (List.filter (fun w => String.eqb (fst w) TAG) ws).

Module Expr.

Section Packages.

(** The package prefixes of [internal.filterName], [internal.processorName]
    and [internal.aggregatorName]; the module [package-internal] is not
    among the sources, the tests compare a tag with
    [Util.PROCESSOR_PACKAGE + 'ExtractorProcessor']. *)
Variables FILTER_PACKAGE PROCESSOR_PACKAGE AGGREGATOR_PACKAGE : string.

(** [Extractors.extract(property)]: the extractor a property name stands
    for; the extractor algebra is not among the sources. *)
Variable extract : string -> jsvalue.

Definition filterName (name : string) : string :=
  String.append FILTER_PACKAGE name.

(** *** Base classes *)

(** Modelled from the spec: the base class [Filter] is not among the
    sources; "typeTag is assigned once at construction": its constructor
    stores the name it is given in the tag field. *)
Definition Filter_ctor (clz : string) : script := [(TAG, VStr clz)].

(** Modelled from the spec: [ComparisonFilter] is not among the sources;
    "leaf filters hold an extractor + comparison value". *)
Definition ComparisonFilter_ctor (clz : string) (extractor value : jsvalue) : script :=
  Filter_ctor clz ++ [("extractor", extractor); ("value", value)].



(** *** Comparison filters *)

(** [LessFilter]: [super(internal.filterName('LessFilter'), extractor, value)]. *)
Definition LessFilter_ctor (extractor value : jsvalue) : script :=
  ComparisonFilter_ctor (filterName "LessFilter") extractor value.

(** Modelled from the spec: the three sibling classes of [LessFilter] that
    [BetweenFilter] instantiates are not among the sources; they follow
    [LessFilter] with their own names. *)
Definition LessEqualsFilter_ctor (extractor value : jsvalue) : script :=
  ComparisonFilter_ctor (filterName "LessEqualsFilter") extractor value.
Definition GreaterFilter_ctor (extractor value : jsvalue) : script :=
  ComparisonFilter_ctor (filterName "GreaterFilter") extractor value.
Definition GreaterEqualsFilter_ctor (extractor value : jsvalue) : script :=
  ComparisonFilter_ctor (filterName "GreaterEqualsFilter") extractor value.

(** [LikeFilter]: [escape: string = ''], [ignoreCase: boolean = false];
    an omitted argument is [None]. *)
Definition LikeFilter_ctor (extractor : jsvalue) (pattern : string)
           (escape : option string) (ignoreCase : option bool) : script :=
  let escape := defaulted "" escape in
  let ignoreCase := defaulted false ignoreCase in
  ComparisonFilter_ctor (filterName "LikeFilter") extractor (VStr pattern)
  ++ (if truthy (VStr escape) && (0 <? String.length escape)%nat
      then [("escape", VStr escape)]
      else [])
  ++ [("ignoreCase", VBool (ignoreCase || false))].

(** *** Key association *)

(** [KeyAssociatedFilter]: [super('KeyAssociatedFilter')], then the two
    fields; the wrapped filter is stored as it is given. *)
Definition KeyAssociatedFilter_ctor (filter hostKey : jsvalue) : script :=
  Filter_ctor "KeyAssociatedFilter"
  ++ [("filter", filter); ("hostKey", hostKey)].

(** Whether a value is a key-association filter node. *)
Definition is_key_associated (v : jsvalue) : bool :=
  match v with
  | VObj o =>
      match tag_of o with
      | Some (VStr t) => String.eqb t "KeyAssociatedFilter"
      | _ => false
      end
  | _ => false
  end.

(** *** Composite filters *)

(** Modelled from the spec: the composite classes [AndFilter], [OrFilter]
    and [NotFilter] are not among the sources; they "hold an ordered
    sequence of child filters" and "reject construction when a composite
    is asked to accept a key-association child". *)
Definition Composite_ctor (clz : string) (children : list jsvalue) : result script :=
  if existsb is_key_associated children
  then Err (InvalidArgument "key-association filter as a child of a composite")
  else Ok (Filter_ctor clz ++ [("filters", VArr children)]).

Definition AndFilter_ctor (left right : jsvalue) : result script :=
  Composite_ctor (filterName "AndFilter") [left; right].
Definition OrFilter_ctor (left right : jsvalue) : result script :=
  Composite_ctor (filterName "OrFilter") [left; right].
Definition NotFilter_ctor (filter : jsvalue) : result script :=
  Composite_ctor (filterName "NotFilter") [filter].

(** [BetweenFilter extends AndFilter]: the super call builds the two
    comparison filters, then the tag is overwritten and the bounds are
    stored.  [includeLowerBound] and [includeUpperBound] default to false. *)
Definition BetweenFilter_ctor (extractor from to : jsvalue)
           (includeLowerBound includeUpperBound : option bool) : result script :=
  let includeLowerBound := defaulted false includeLowerBound in
  let includeUpperBound := defaulted false includeUpperBound in
  super <- AndFilter_ctor
             (VObj (construct (if includeLowerBound
                               then GreaterEqualsFilter_ctor extractor from
                               else GreaterFilter_ctor extractor from)))
             (VObj (construct (if includeUpperBound
                               then LessEqualsFilter_ctor extractor to
                               else LessFilter_ctor extractor to))) ;;
  Ok (super ++ [(TAG, VStr (filterName "BetweenFilter"));
                ("from", from);
                ("to", to)]).

(** *** Processors and aggregators *)




(** *** [new C(...)] *)

Definition new (ws : script) : jsvalue := VObj (construct ws).

Definition new_result (r : result script) : result jsvalue :=
  ws <- r ;; Ok (new ws).

(** The filters the factory helpers [greater], [less], ... and [and] build. *)
Definition greater (e y : jsvalue) : jsvalue := new (GreaterFilter_ctor e y).
Definition greaterEquals (e y : jsvalue) : jsvalue := new (GreaterEqualsFilter_ctor e y).
Definition less (e z : jsvalue) : jsvalue := new (LessFilter_ctor e z).
Definition lessEquals (e z : jsvalue) : jsvalue := new (LessEqualsFilter_ctor e z).
Definition and (l r : jsvalue) : result jsvalue := new_result (AndFilter_ctor l r).
Definition or (l r : jsvalue) : result jsvalue := new_result (OrFilter_ctor l r).
Definition not (f : jsvalue) : result jsvalue := new_result (NotFilter_ctor f).
Definition between (e y z : jsvalue) (lo hi : option bool) : result jsvalue :=
  new_result (BetweenFilter_ctor e y z lo hi).
Definition keyAssociated (f hostKey : jsvalue) : jsvalue :=
  new (KeyAssociatedFilter_ctor f hostKey).

End Packages.

End Expr.

(** ** The named-cache client *)

Definition bytes : Type := list Byte.byte.

(** A promise is its settlement state; a rejection reason may be [null]
  ([reject(err)] with no error at hand). *)
Inductive promise (A : Type) : Type :=
  | Pending
  | Resolved (a : A)
  | Rejected (reason : option error).
Arguments Pending {A}.
Arguments Resolved {A} a.
Arguments Rejected {A} reason.

(** Settling is effective once: later calls of [resolve] or [reject] are ignored. *)
Definition resolve {A : Type} (a : A) (p : promise A) : promise A :=
  match p with
  | Pending => Resolved a
  | _ => p
  end.

Definition reject {A : Type} (reason : option error) (p : promise A) : promise A :=
  match p with
  | Pending => Rejected reason
  | _ => p
  end.

(** A line written by [console.log(text + e)], [e] an error object: the text,
  followed by the string the engine converts [e] to.  That conversion
  belongs to the class of the error object, which is not among the sources,
  so a line is kept as the two operands of the concatenation. *)
Record console_line : Type := { line_text : string; line_error : error }.

(** ["*** ERROR: " + e]. *)
Definition error_line (e : error) : console_line :=
  {| line_text := "*** ERROR: "; line_error := e |}.

(** *** Wire messages *)

(** [BytesValue]: [getValue_asU8()]. *)
Record BytesValue : Type := { getValue_asU8 : bytes }.

(** [BoolValue] and [Int32Value]: [getValue()]. *)
Record ScalarValue : Type := { getValue : jsvalue }.

(** [OptionalValue], the answer to [get]: [getPresent()], [getValue_asU8()]. *)
Record OptionalValue : Type := { getPresent : bool; getOptValue_asU8 : bytes }.

(** [Entry]: [getKey_asU8()], [getValue_asU8()]. *)
Record Entry : Type := { getKey_asU8 : bytes; getEntryValue_asU8 : bytes }.

(** What the transport hands to a unary callback: [(err, resp)]. *)
Definition reply (R : Type) : Type := (option error * option R)%type.

(** Requests.  [RequestFactory] is not among the sources; a request is the
  factory method's arguments: scalar requests, the filter-scoped requests
  of [keySet(filter)], [entrySet(filter)], [values(filter)], and the page
  request of [pageRequest(cookie)], which carries only the cache name and
  the cookie. *)
Inductive request : Type :=
  | ScalarRequest (cache : string) (op : string) (args : list jsvalue)
  | FilterRequest (cache : string) (filter : jsvalue)
  | PageRequest (cache : string) (cookie : option bytes).

Definition is_page_request (r : request) : bool :=
  match r with
  | PageRequest _ _ => true
  | _ => false
  end.

(** One call on the gRPC service client: the method and its request. *)
Definition rpc : Type := (string * request)%type.

Record NamedCacheClient : Type := { cacheName : string }.

Module RequestFactory.
Definition keySet (self : NamedCacheClient) (filter : jsvalue) : request :=
  FilterRequest (cacheName self) filter.
Definition entrySet (self : NamedCacheClient) (filter : jsvalue) : request :=
  FilterRequest (cacheName self) filter.
Definition values (self : NamedCacheClient) (filter : jsvalue) : request :=
  FilterRequest (cacheName self) filter.
Definition pageRequest (self : NamedCacheClient) (cookie : option bytes) : request :=
  PageRequest (cacheName self) cookie.
End RequestFactory.

(** *** Unary callbacks *)

(** The state a unary callback acts on: the promise returned to the caller,
  the payloads handed to the codec so far, and the exceptions that left
  the callback uncaught. *)
Record unary_state : Type := {
  u_promise : promise jsvalue;
  u_decoded : list bytes;
  u_uncaught : list error
}.

Definition unary_init : unary_state :=
  {| u_promise := Pending; u_decoded := []; u_uncaught := [] |}.

(** Code running inside a callback: it reads and writes the state and may throw. *)
Definition comp (A : Type) : Type := unary_state -> result A * unary_state.

Definition ret {A : Type} (a : A) : comp A := fun s => (Ok a, s).

Definition cbind {A B : Type} (c : comp A) (k : A -> comp B) : comp B :=
  fun s =>
    match c s with
    | (Ok a, s') => k a s'
    | (Err e, s') => (Err e, s')
    end.

Notation "x <~ c ;; k" := (cbind c (fun x => k))
  (at level 61, c at next level, right associativity).

Definition do_resolve (v : jsvalue) : comp unit :=
  fun s => (Ok tt, {| u_promise := resolve v (u_promise s);
                      u_decoded := u_decoded s;
                      u_uncaught := u_uncaught s |}).

Definition do_reject (reason : option error) : comp unit :=
  fun s => (Ok tt, {| u_promise := reject reason (u_promise s);
                      u_decoded := u_decoded s;
                      u_uncaught := u_uncaught s |}).

(** The transport invokes the callback once; an exception that leaves it
  settles nothing. *)
Definition run_callback (c : comp unit) : unary_state :=
  match c unary_init with
  | (Ok _, s) => s
  | (Err e, s) => {| u_promise := u_promise s;
                     u_decoded := u_decoded s;
                     u_uncaught := u_uncaught s ++ [e] |}
  end.

(** *** Streams *)

(** The events of a server stream, as delivered to the registered handlers. *)
Inductive event (D : Type) : Type :=
  | Data (d : D)
  | End
  | Error (e : error).
Arguments Data {D} d.
Arguments End {D}.
Arguments Error {D} e.

(** The value the outer promise of a filter-scoped enumeration resolves with:
  a reference to the one [Set] object the data handler keeps adding to. *)
Inductive set_ref : Type := TheSet.

(** The state the handlers of one filter-scoped call act on.  The members of
  the [Set] are promises, each a fresh object, so [set.add] always appends. *)
Record stream_state : Type := {
  s_calls : list rpc;
  s_set : list (promise jsvalue);
  s_promise : promise set_ref;
  s_console : list console_line;
  s_uncaught : list error
}.

Definition stream_init (call : rpc) : stream_state :=
  {| s_calls := [call]; s_set := []; s_promise := Pending;
     s_console := []; s_uncaught := [] |}.

Definition add_member (m : promise jsvalue) (s : stream_state) : stream_state :=
  {| s_calls := s_calls s; s_set := s_set s ++ [m]; s_promise := s_promise s;
     s_console := s_console s; s_uncaught := s_uncaught s |}.

Definition settle (f : promise set_ref -> promise set_ref) (s : stream_state) : stream_state :=
  {| s_calls := s_calls s; s_set := s_set s; s_promise := f (s_promise s);
     s_console := s_console s; s_uncaught := s_uncaught s |}.

Definition console_log (line : console_line) (s : stream_state) : stream_state :=
  {| s_calls := s_calls s; s_set := s_set s; s_promise := s_promise s;
     s_console := s_console s ++ [line]; s_uncaught := s_uncaught s |}.

(** An exception thrown by a handler leaves it; the promise and the set are
  as the handler left them. *)
Definition escape (e : error) (s : stream_state) : stream_state :=
  {| s_calls := s_calls s; s_set := s_set s; s_promise := s_promise s;
     s_console := s_console s; s_uncaught := s_uncaught s ++ [e] |}.

(** [new Promise((resolve, reject) => resolve(x))]: an exception thrown while
  [x] is computed inside the executor rejects the new promise. *)
Definition executor (x : result jsvalue) : promise jsvalue :=
  match x with
  | Ok v => Resolved v
  | Err e => Rejected (Some e)
  end.

Definition deliver {D : Type} (handler : event D -> stream_state -> stream_state)
           (events : list (event D)) (s : stream_state) : stream_state :=
  fold_left (fun st ev => handler ev st) events s.

(** The paged views of [streamed_collection]. *)
Inductive collection_kind : Type := KeySet | EntrySet | ValueSet.

Record StreamedCollection : Type := {
  kind : collection_kind;
  owner : NamedCacheClient
}.

(** What [keySet], [entrySet] and [values] return: a promise already resolved
  with a paged view, or a pending promise fed by one streamed call. *)
Inductive enumeration : Type :=
  | Paged (view : StreamedCollection)
  | Streaming (s : stream_state).

Definition issued (e : enumeration) : list rpc :=
  match e with
  | Paged _ => []
  | Streaming s => s_calls s
  end.

Module Client.

Section Codec.

(** [Serializer.deserialize], the external codec; it may throw. *)
Variable deserialize : bytes -> result jsvalue.

(** [new NamedCacheEntry(keyBytes, valueBytes)]; the class is part of
    [streamed_collection], which is not among the sources. *)
Variable newNamedCacheEntry : bytes -> bytes -> result jsvalue.

Definition Serializer_deserialize (b : bytes) : comp jsvalue :=
  fun s => (deserialize b, {| u_promise := u_promise s;
                              u_decoded := u_decoded s ++ [b];
                              u_uncaught := u_uncaught s |}).

(** [toValue]: [(value && value.length > 0) ? Serializer.deserialize(value) : null]. *)
Definition toValue (value : option bytes) : comp jsvalue :=
  match value with
  | Some b => if (0 <? List.length b)%nat then Serializer_deserialize b else ret VNull
  | None => ret VNull
  end.

(** [resolveValue(resolve, reject, err, fn)]. *)
Definition resolveValue (err : option error) (fn : option (comp jsvalue)) : comp unit :=
  match err with
  | Some e => do_reject (Some e)
  | None =>
      match fn with
      | Some f => v <~ f ;; do_resolve v
      | None => do_resolve VUndefined
      end
  end.

(** [() => resp ? NamedCacheClient.toValue(resp.getValue_asU8()) : resp]. *)
Definition value_of (resp : option BytesValue) : comp jsvalue :=
  match resp with
  | Some r => toValue (Some (getValue_asU8 r))
  | None => ret VUndefined
  end.

(** [() => resp ? resp.getValue() : resp]. *)
Definition scalar_of (resp : option ScalarValue) : comp jsvalue :=
  match resp with
  | Some r => ret (getValue r)
  | None => ret VUndefined
  end.

Definition addIndex (extractor : jsvalue) (r : option error) : unary_state :=
  run_callback (resolveValue r None).

Definition clear (r : option error) : unary_state :=
  run_callback (resolveValue r None).

Definition containsEntry (key value : jsvalue) (r : reply ScalarValue) : unary_state :=
  run_callback (resolveValue (fst r) (Some (scalar_of (snd r)))).

Definition containsKey (key : jsvalue) (r : reply ScalarValue) : unary_state :=
  run_callback (resolveValue (fst r) (Some (scalar_of (snd r)))).

Definition containsValue (value : jsvalue) (r : reply ScalarValue) : unary_state :=
  run_callback (resolveValue (fst r) (Some (scalar_of (snd r)))).

(** [() => resp ? NamedCacheClient.toValue(resp.getValue_asU8()) : resp],
    for the answer to [get]. *)
Definition optional_value_of (resp : option OptionalValue) : comp jsvalue :=
  match resp with
  | Some m => toValue (Some (getOptValue_asU8 m))
  | None => ret VUndefined
  end.

(** [resp && resp.getPresent()]. *)
Definition present (resp : option OptionalValue) : bool :=
  match resp with
  | Some m => getPresent m
  | None => false
  end.

(** [getOrDefault]: the callback tests [resp && resp.getPresent()] before
    it looks at [err]; the other branch resolves with the default value. *)
Definition getOrDefault (key defaultValue : jsvalue) (r : reply OptionalValue) : unary_state :=
  let (err, resp) := r in
  run_callback
    (if present resp
     then resolveValue err (Some (optional_value_of resp))
     else do_resolve defaultValue).

Definition get (key : jsvalue) (r : reply OptionalValue) : unary_state :=
  getOrDefault key VNull r.

Definition isEmpty (r : reply ScalarValue) : unary_state :=
  run_callback (resolveValue (fst r) (Some (scalar_of (snd r)))).

Definition put (key value : jsvalue) (ttl : option Z) (r : reply BytesValue) : unary_state :=
  run_callback (resolveValue (fst r) (Some (value_of (snd r)))).

Definition putIfAbsent (key value : jsvalue) (ttl : option Z) (r : reply BytesValue) : unary_state :=
  run_callback (resolveValue (fst r) (Some (value_of (snd r)))).

Definition remove (key : jsvalue) (r : reply BytesValue) : unary_state :=
  run_callback (resolveValue (fst r) (Some (value_of (snd r)))).

Definition removeMapping (key value : jsvalue) (r : reply ScalarValue) : unary_state :=
  run_callback (resolveValue (fst r) (Some (scalar_of (snd r)))).

Definition replace (key value : jsvalue) (r : reply BytesValue) : unary_state :=
  run_callback (resolveValue (fst r) (Some (value_of (snd r)))).

Definition replaceMapping (key value newValue : jsvalue) (r : reply ScalarValue) : unary_state :=
  run_callback (resolveValue (fst r) (Some (scalar_of (snd r)))).

(** [size]: [if (err || !resp) reject(err) else resolve(resp.getValue())]. *)
Definition size (r : reply ScalarValue) : unary_state :=
  run_callback
    (match r with
     | (None, Some m) => do_resolve (getValue m)
     | (err, _) => do_reject err
     end).

(** *** Filter-scoped enumerations: the handlers of the streamed call *)

Definition on_end (s : stream_state) : stream_state :=
  settle (resolve TheSet) s.

(** [console.log("*** ERROR: " + e); reject(e)]. *)
Definition on_error (e : error) (s : stream_state) : stream_state :=
  settle (reject (Some e))
         (console_log (error_line e) s).

(** [keySet(filter)]: the key is decoded in the handler itself and added
    only [if (k)]. *)
Definition keySet_on (ev : event BytesValue) (s : stream_state) : stream_state :=
  match ev with
  | Data r =>
      match deserialize (getValue_asU8 r) with
      | Ok k => if truthy k then add_member (executor (Ok k)) s else s
      | Err e => escape e s
      end
  | End => on_end s
  | Error e => on_error e s
  end.

(** [entrySet(filter)]: the entry is built in the handler and added. *)
Definition entrySet_on (ev : event Entry) (s : stream_state) : stream_state :=
  match ev with
  | Data e =>
      match newNamedCacheEntry (getKey_asU8 e) (getEntryValue_asU8 e) with
      | Ok entry => add_member (executor (Ok entry)) s
      | Err x => escape x s
      end
  | End => on_end s
  | Error e => on_error e s
  end.

(** [values(filter)]: the value is decoded inside the member's executor. *)
Definition values_on (ev : event BytesValue) (s : stream_state) : stream_state :=
  match ev with
  | Data b => add_member (executor (deserialize (getValue_asU8 b))) s
  | End => on_end s
  | Error e => on_error e s
  end.

(** *** [keySet], [entrySet], [values]: [arg] is [VUndefined] when omitted *)

Definition keySet (self : NamedCacheClient) (arg : jsvalue) : enumeration :=
  if negb (truthy arg)
  then Paged {| kind := KeySet; owner := self |}
  else Streaming (stream_init ("keySet", RequestFactory.keySet self arg)).

Definition entrySet (self : NamedCacheClient) (arg : jsvalue) : enumeration :=
  if negb (truthy arg)
  then Paged {| kind := EntrySet; owner := self |}
  else Streaming (stream_init ("entrySet", RequestFactory.entrySet self arg)).

Definition values (self : NamedCacheClient) (arg : jsvalue) : enumeration :=
  if negb (truthy arg)
  then Paged {| kind := ValueSet; owner := self |}
  else Streaming (stream_init ("values", RequestFactory.values self arg)).

(** The state of a filter-scoped call after the stream delivered [events]. *)
Definition after {D : Type} (handler : event D -> stream_state -> stream_state)
           (e : enumeration) (events : list (event D)) : option stream_state :=
  match e with
  | Paged _ => None
  | Streaming s => Some (deliver handler events s)
  end.

(** *** Page senders *)

Definition nextEntrySetPage (self : NamedCacheClient) (cookie : option bytes) : rpc :=
  ("nextEntrySetPage", RequestFactory.pageRequest self cookie).

Definition nextKeySetPage (self : NamedCacheClient) (cookie : option bytes) : rpc :=
  ("nextKeySetPage", RequestFactory.pageRequest self cookie).

End Codec.

End Client.

(** *** The paged views *)

(** A page as the server streams it: its elements and the cookie it ends with. *)
Record page : Type := { elements : list bytes; cookie : option bytes }.

(** "A page completing with a present, non-empty cookie means more pages
  exist; a page completing with an absent/empty cookie means enumeration
  is done." *)
Definition more (p : page) : bool :=
  match cookie p with
  | Some (_ :: _) => true
  | _ => false
  end.

Module Paging.

(** Modelled from the spec: which page sender a view uses is decided in
    [streamed_collection], which is not among the sources; the paging
    requests are "nextKeySetPage(cookie)" and "nextEntrySetPage(cookie)"
    only, so a key set pages through the first, an entry set and a value
    set through the second. *)
Definition next_page (view : StreamedCollection) (c : option bytes) : rpc :=
  match kind view with
  | KeySet => Client.nextKeySetPage (owner view) c
  | EntrySet | ValueSet => Client.nextEntrySetPage (owner view) c
  end.

(** Modelled from the spec: [iterate()] of the paged views [KeySet],
    [EntrySet] and [ValueSet] ([streamed_collection] is not among the
    sources): "sourced from one or more server-streamed calls, continued
    via cookies until the server signals exhaustion"; "the client does not
    request the next page until the current page's stream signals
    completion".  [served] are the pages the server answers with, in
    order; the result is the calls issued and the elements received. *)
Fixpoint pages_from (view : StreamedCollection) (c : option bytes)
         (served : list page) : list rpc * list bytes :=
  match served with
  | [] => ([next_page view c], [])
  | p :: rest =>
      if more p
      then let (calls, es) := pages_from view (cookie p) rest in
           (next_page view c :: calls, elements p ++ es)
      else ([next_page view c], elements p)
  end.

(** "Calling [iterate()] again issues a fresh first-page request." *)
Definition iterate (view : StreamedCollection) (served : list page) : list rpc * list bytes :=
  pages_from view None served.

End Paging.

(** ** A small codec for the examples *)

(** Decodes one ASCII digit to its number and throws on anything else. *)
Definition digit_codec (b : bytes) : result jsvalue :=
  match b with
  | [c] =>
      let n := Z.of_N (Byte.to_N c) in
      if ((48 <=? n) && (n <=? 57))%Z then Ok (VNum (n - 48))
      else Err (DecodeError "Unexpected token")
  | _ => Err (DecodeError "Unexpected token")
  end.

(** An entry as an object of its decoded key and value. *)
Definition digit_entry (k v : bytes) : result jsvalue :=
  key <- digit_codec k ;;
  val <- digit_codec v ;;
  Ok (VObj [("key", key); ("value", val)]).

Definition a_client : NamedCacheClient := {| cacheName := "client-cache" |}.

Definition unavailable : error := ServiceError 14 "UNAVAILABLE".

Definition payload_1 : BytesValue := {| getValue_asU8 := [Byte.x31] |}.
Definition payload_x : BytesValue := {| getValue_asU8 := [Byte.x78] |}.
Definition entry_1_0 : Entry :=
  {| getKey_asU8 := [Byte.x31]; getEntryValue_asU8 := [Byte.x30] |}.


(** Two pages: the first ends with the cookie ["A"], the second with none. *)
Definition first_page : page :=
  {| elements := [[Byte.x31]]; cookie := Some [Byte.x41] |}.
Definition last_page : page :=
  {| elements := [[Byte.x30]]; cookie := None |}.

(** How many key-association nodes a value contains, at any depth. *)
Fixpoint key_associations (v : jsvalue) : nat :=
  match v with
  | VArr items =>
      (fix go (l : list jsvalue) : nat :=
         match l with
         | [] => 0
         | x :: r => key_associations x + go r
         end) items
  | VObj fields =>
      (if Expr.is_key_associated v then 1 else 0)
      + (fix go (l : list (string * jsvalue)) : nat :=
           match l with
           | [] => 0
           | (_, x) :: r => key_associations x + go r
           end) fields
  | _ => 0
  end.

(** The key-association nodes strictly below the root. *)
Definition wrapped_key_associations (v : jsvalue) : nat :=
  key_associations v - (if Expr.is_key_associated v then 1 else 0).

(** ** Well-formed streams and handlers *)

Definition is_data {D : Type} (ev : event D) : bool :=
  match ev with
  | Data _ => true
  | _ => false
  end.

(** What an event does to the outer promise of a filter-scoped call. *)
Definition promise_step {D : Type} (ev : event D) (p : promise set_ref) : promise set_ref :=
  match ev with
  | Data _ => p
  | End => resolve TheSet p
  | Error e => reject (Some e) p
  end.

(** A handler that issues no call and settles the outer promise only on
  [end] and [error]. *)
Definition stream_handler {D : Type}
           (h : event D -> stream_state -> stream_state) : Prop :=
  forall ev s,
    s_calls (h ev s) = s_calls s /\
    s_promise (h ev s) = promise_step ev (s_promise s).

(** ** What a stream delivered *)

(** The payloads of the data events, in the order of delivery. *)
Fixpoint data_of {D : Type} (evs : list (event D)) : list D :=
  match evs with
  | [] => []
  | Data d :: rest => d :: data_of rest
  | _ :: rest => data_of rest
  end.

(** The errors of the error events, in the order of delivery. *)
Fixpoint errors_of {D : Type} (evs : list (event D)) : list error :=
  match evs with
  | [] => []
  | Error e :: rest => e :: errors_of rest
  | _ :: rest => errors_of rest
  end.

(** The keys among [ks] that pass [if (k)], as members of the set. *)
Definition kept_keys (ks : list (result jsvalue)) : list (promise jsvalue) :=
  flat_map (fun r => match r with
                     | Ok k => if truthy k then [Resolved k] else []
                     | Err _ => []
                     end) ks.

(** The exceptions among the results [rs]. *)
Definition thrown {A : Type} (rs : list (result A)) : list error :=
  flat_map (fun r => match r with
                     | Ok _ => []
                     | Err e => [e]
                     end) rs.

(** The values among the results [rs]. *)
Definition returned {A : Type} (rs : list (result A)) : list A :=
  flat_map (fun r => match r with
                     | Ok a => [a]
                     | Err _ => []
                     end) rs.

(** A member that is a promise resolved with a truthy value. *)
Definition resolved_truthy (m : promise jsvalue) : bool :=
  match m with
  | Resolved k => truthy k
  | _ => false
  end.

Definition is_resolved (m : promise jsvalue) : bool :=
  match m with
  | Resolved _ => true
  | _ => false
  end.

(** [n] key-association filters around [f], each with host key [hostKey]. *)
Fixpoint associate (n : nat) (f hostKey : jsvalue) : jsvalue :=
  match n with
  | O => f
  | S m => Expr.keyAssociated (associate m f hostKey) hostKey
  end.

(** The names of the fields of an object, in order. *)
Definition field_names (o : obj) : list string := map fst o.


(** ** The tag vocabulary *)



(** ** Example expressions *)

Definition age_extractor : jsvalue :=
  VObj [("@class", VStr "extractor.UniversalExtractor"); ("name", VStr "age")].

(** [Filter.less('age', 40).associatedWith(10)], as in the class comment. *)
Definition scoped_less : jsvalue :=
  Expr.keyAssociated (Expr.less "filter." age_extractor (VNum 40)) (VNum 10).

(** A key-association filter built around another one. *)
Definition nested_key_association : jsvalue :=
  Expr.keyAssociated scoped_less (VNum 11).

(** * Properties *)

(** ** Fields and construction scripts *)






Lemma tag_writes_history (ws : script) :
  tag_writes ws = List.length (tag_history ws).
Proof.
  unfold tag_writes, tag_history. now rewrite length_map.
Qed.

Lemma append_length (p a : string) :
  String.length (String.append p a) = String.length p + String.length a.
Proof.
  induction p as [|c p IH]; simpl; [reflexivity | now rewrite IH].
Qed.

(** ** Type tags of the comparison filters *)

Ltac tag_differs pkg :=
  match goal with
  | |- String.eqb ?a ?b = false =>
      let E := fresh "E" in
      let L := fresh "L" in
      destruct (String.eqb a b) eqn:E; [exfalso | reflexivity];
      apply String.eqb_eq in E;
      pose proof (f_equal String.length E) as L;
      rewrite append_length in L; simpl in L;
      do 20 (try (destruct pkg as [|? pkg]; simpl in E, L;
                  [try discriminate E; try lia|]));
      lia
  end.

Lemma greater_tag (pkg : string) :
  String.eqb (Expr.filterName pkg "GreaterFilter") "KeyAssociatedFilter" = false.
Proof. unfold Expr.filterName. tag_differs pkg. Qed.

Lemma greaterEquals_tag (pkg : string) :
  String.eqb (Expr.filterName pkg "GreaterEqualsFilter") "KeyAssociatedFilter" = false.
Proof. unfold Expr.filterName. tag_differs pkg. Qed.

Lemma less_tag (pkg : string) :
  String.eqb (Expr.filterName pkg "LessFilter") "KeyAssociatedFilter" = false.
Proof. unfold Expr.filterName. tag_differs pkg. Qed.

Lemma lessEquals_tag (pkg : string) :
  String.eqb (Expr.filterName pkg "LessEqualsFilter") "KeyAssociatedFilter" = false.
Proof. unfold Expr.filterName. tag_differs pkg. Qed.

Lemma greater_plain (pkg : string) (e y : jsvalue) :
  Expr.is_key_associated (Expr.greater pkg e y) = false.
Proof. cbn -[Expr.filterName]. apply greater_tag. Qed.

Lemma greaterEquals_plain (pkg : string) (e y : jsvalue) :
  Expr.is_key_associated (Expr.greaterEquals pkg e y) = false.
Proof. cbn -[Expr.filterName]. apply greaterEquals_tag. Qed.

Lemma less_plain (pkg : string) (e z : jsvalue) :
  Expr.is_key_associated (Expr.less pkg e z) = false.
Proof. cbn -[Expr.filterName]. apply less_tag. Qed.

Lemma lessEquals_plain (pkg : string) (e z : jsvalue) :
  Expr.is_key_associated (Expr.lessEquals pkg e z) = false.
Proof. cbn -[Expr.filterName]. apply lessEquals_tag. Qed.

(** The super call of [BetweenFilter] never fails: its two children are
  comparison filters. *)
Lemma between_super_ok (pkg : string) (e y z : jsvalue) (lo hi : bool) :
  Expr.AndFilter_ctor pkg
    (if lo then Expr.greaterEquals pkg e y else Expr.greater pkg e y)
    (if hi then Expr.lessEquals pkg e z else Expr.less pkg e z)
  = Ok (Expr.Filter_ctor (Expr.filterName pkg "AndFilter")
        ++ [("filters",
             VArr [if lo then Expr.greaterEquals pkg e y else Expr.greater pkg e y;
                   if hi then Expr.lessEquals pkg e z else Expr.less pkg e z])]).
Proof.
  unfold Expr.AndFilter_ctor, Expr.Composite_ctor.
  replace (existsb _ _) with false; [reflexivity|].
  symmetry. simpl existsb.
  destruct lo, hi;
    rewrite ?greater_plain, ?greaterEquals_plain, ?less_plain, ?lessEquals_plain;
    reflexivity.
Qed.

Lemma and_between_tags_differ (pkg : string) :
  Expr.filterName pkg "AndFilter" <> Expr.filterName pkg "BetweenFilter".
Proof.
  unfold Expr.filterName. intros H.
  apply (f_equal String.length) in H. rewrite !append_length in H.
  simpl in H. lia.
Qed.

Lemma between_script (pkg : string) (e y z : jsvalue) (lo hi : option bool) :
  Expr.BetweenFilter_ctor pkg e y z lo hi
  = Ok ((Expr.Filter_ctor (Expr.filterName pkg "AndFilter")
         ++ [("filters",
              VArr [if defaulted false lo then Expr.greaterEquals pkg e y
                    else Expr.greater pkg e y;
                    if defaulted false hi then Expr.lessEquals pkg e z
                    else Expr.less pkg e z])])
        ++ [(TAG, VStr (Expr.filterName pkg "BetweenFilter"));
            ("from", y); ("to", z)]).
Proof.
  unfold Expr.BetweenFilter_ctor.
  replace (VObj (construct (if defaulted false lo
                            then Expr.GreaterEqualsFilter_ctor pkg e y
                            else Expr.GreaterFilter_ctor pkg e y)))
    with (if defaulted false lo then Expr.greaterEquals pkg e y
          else Expr.greater pkg e y)
    by now destruct (defaulted false lo).
  replace (VObj (construct (if defaulted false hi
                            then Expr.LessEqualsFilter_ctor pkg e z
                            else Expr.LessFilter_ctor pkg e z)))
    with (if defaulted false hi then Expr.lessEquals pkg e z
          else Expr.less pkg e z)
    by now destruct (defaulted false hi).
  now rewrite between_super_ok.
Qed.

(** ** The filter algebra *)

(** C1, as the code has it.  [between(e, y, z)] builds the node of
  [and(lower, upper)], where [lower] is [greater(e, y)] by default and
  [greaterEquals(e, y)] when the lower bound is inclusive, and [upper] is
  [less(e, z)] by default and [lessEquals(e, z)] when the upper bound is
  inclusive; on that node it replaces the tag of [AndFilter] by the tag of
  [BetweenFilter] and adds the fields [from] and [to].  The children are
  those of the conjunction, the tag is not. *)
Theorem between_is_retagged_and (pkg : string) (e y z : jsvalue) (lo hi : option bool) :
  let lower := if defaulted false lo then Expr.greaterEquals pkg e y
               else Expr.greater pkg e y in
  let upper := if defaulted false hi then Expr.lessEquals pkg e z
               else Expr.less pkg e z in
  exists a b : obj,
    Expr.and pkg lower upper = Ok (VObj a) /\
    Expr.between pkg e y z lo hi = Ok (VObj b) /\
    b = set_field "to" z (set_field "from" y
          (set_field TAG (VStr (Expr.filterName pkg "BetweenFilter")) a)) /\
    get_field "filters" a = Some (VArr [lower; upper]) /\
    get_field "filters" b = Some (VArr [lower; upper]) /\
    tag_of a = Some (VStr (Expr.filterName pkg "AndFilter")) /\
    tag_of b = Some (VStr (Expr.filterName pkg "BetweenFilter")) /\
    tag_of a <> tag_of b /\
    get_field "from" b = Some y /\
    get_field "to" b = Some z.
Proof.
  intros lower upper.
  unfold Expr.and, Expr.between, Expr.new_result.
  rewrite between_script. subst lower upper. rewrite between_super_ok.
  set (lower := if defaulted false lo then _ else _).
  set (upper := if defaulted false hi then _ else _).
  do 2 eexists. split; [reflexivity|]. split; [reflexivity|].
  cbn -[Expr.filterName lower upper].
  repeat split.
  intros H. injection H as H. now apply and_between_tags_differ in H.
Qed.

(** C1 fails as stated: with default bounds, and with both bounds inclusive,
  the node of [between] is not the node of the conjunction. *)
Lemma between_differs_from_and :
  Expr.between "filter." age_extractor (VNum 18) (VNum 65) None None
  <> Expr.and "filter." (Expr.greater "filter." age_extractor (VNum 18))
                        (Expr.less "filter." age_extractor (VNum 65))
  /\
  Expr.between "filter." age_extractor (VNum 18) (VNum 65) (Some true) (Some true)
  <> Expr.and "filter." (Expr.greaterEquals "filter." age_extractor (VNum 18))
                        (Expr.lessEquals "filter." age_extractor (VNum 65)).
Proof.
  split; intros H; vm_compute in H; discriminate H.
Qed.

(** C6.  The node of a [LikeFilter] has the field [escape] exactly when a
  non-empty escape string was supplied, and then it holds that string; it
  is never present with [null].  The field [ignoreCase] holds the flag
  supplied, and [false] when none was. *)
Theorem like_escape_and_ignoreCase (pkg : string) (extractor : jsvalue)
        (pattern : string) (escape : option string) (ignoreCase : option bool) :
  let o := construct (Expr.LikeFilter_ctor pkg extractor pattern escape ignoreCase) in
  (has_field "escape" o = true <-> exists s, escape = Some s /\ s <> "") /\
  get_field "escape" o
  = match escape with
    | Some s => if String.eqb s "" then None else Some (VStr s)
    | None => None
    end /\
  get_field "escape" o <> Some VNull /\
  get_field "ignoreCase" o = Some (VBool (defaulted false ignoreCase)) /\
  get_field "ignoreCase"
    (construct (Expr.LikeFilter_ctor pkg extractor pattern escape None))
  = Some (VBool false).
Proof.
  intros o. subst o.
  assert (G : get_field "escape"
                (construct (Expr.LikeFilter_ctor pkg extractor pattern escape ignoreCase))
              = match escape with
                | Some s => if String.eqb s "" then None else Some (VStr s)
                | None => None
                end).
  { destruct escape as [[|c s]|]; reflexivity. }
  unfold has_field. rewrite G.
  repeat split.
  - destruct escape as [[|c s]|]; simpl; try discriminate.
    intros _. exists (String c s). split; [reflexivity | discriminate].
  - intros [s [-> Hs]]. destruct s; [congruence | reflexivity].
  - destruct escape as [[|c s]|]; simpl; discriminate.
  - destruct escape as [[|c s]|], ignoreCase as [[|]|]; reflexivity.
  - destruct escape as [[|c s]|]; reflexivity.
Qed.

(** ** Type tags *)



(** ** Key association *)

(** C3, as the code has it.  [and], [or] and [not] reject a key-association
  filter handed to them as a child, and the [AndFilter] that [between]
  builds has two comparison filters as children, so [between] never fails.
  The constructor of [KeyAssociatedFilter] itself checks nothing: it
  stores whatever filter it is given, and the node it builds is a
  key-association filter whatever that filter is. *)
Theorem key_association_placement
        (pkg : string) (f h other e y z : jsvalue) (lo hi : option bool) :
  let k := Expr.keyAssociated f h in
  Expr.is_key_associated k = true /\
  (exists err, Expr.and pkg k other = Err err) /\
  (exists err, Expr.and pkg other k = Err err) /\
  (exists err, Expr.or pkg k other = Err err) /\
  (exists err, Expr.or pkg other k = Err err) /\
  (exists err, Expr.not pkg k = Err err) /\
  (exists (b : obj) (l r : jsvalue),
      Expr.between pkg e y z lo hi = Ok (VObj b) /\
      get_field "filters" b = Some (VArr [l; r]) /\
      Expr.is_key_associated l = false /\
      Expr.is_key_associated r = false) /\
  get_field "filter" (construct (Expr.KeyAssociatedFilter_ctor f h)) = Some f /\
  get_field "hostKey" (construct (Expr.KeyAssociatedFilter_ctor f h)) = Some h.
Proof.
  intros k.
  assert (K : Expr.is_key_associated k = true) by reflexivity.
  split; [exact K|].
  unfold Expr.and, Expr.or, Expr.not, Expr.new_result,
    Expr.AndFilter_ctor, Expr.OrFilter_ctor, Expr.NotFilter_ctor, Expr.Composite_ctor.
  cbn [existsb]. rewrite K, !orb_true_r. cbn [orb bind].
  repeat (split; [eexists; reflexivity|]).
  split; [|split; reflexivity].
  unfold Expr.between, Expr.new_result. rewrite between_script.
  do 3 eexists. split; [reflexivity|]. split; [reflexivity|].
  split.
  - destruct (defaulted false lo); [apply greaterEquals_plain | apply greater_plain].
  - destruct (defaulted false hi); [apply lessEquals_plain | apply less_plain].
Qed.

(** C3 fails as stated: a key-association filter can be built around another
  key-association filter, which is then an inner node of the tree. *)
Lemma key_association_can_be_wrapped :
  Expr.is_key_associated scoped_less = true /\
  nested_key_association
  = Expr.new (Expr.KeyAssociatedFilter_ctor scoped_less (VNum 11)) /\
  Expr.is_key_associated nested_key_association = true /\
  wrapped_key_associations nested_key_association = 1.
Proof.
  repeat split.
Qed.

(** ** Streams *)

Lemma deliver_app {D : Type} (h : event D -> stream_state -> stream_state)
      (xs ys : list (event D)) (s : stream_state) :
  deliver h (xs ++ ys) s = deliver h ys (deliver h xs s).
Proof. unfold deliver. apply fold_left_app. Qed.

Lemma settled_stays {D : Type} (evs : list (event D)) (p : promise set_ref) :
  p <> Pending ->
  fold_left (fun q ev => promise_step ev q) evs p = p.
Proof.
  revert p. induction evs as [|ev evs IH]; intros p Hp; simpl.
  - reflexivity.
  - assert (E : promise_step ev p = p).
    { destruct ev, p; simpl; congruence. }
    rewrite E. now apply IH.
Qed.

Lemma data_keeps_promise {D : Type} (evs : list (event D)) (p : promise set_ref) :
  forallb is_data evs = true ->
  fold_left (fun q ev => promise_step ev q) evs p = p.
Proof.
  revert p. induction evs as [|ev evs IH]; intros p H; simpl in *.
  - reflexivity.
  - apply andb_true_iff in H as [Hd Hr].
    destruct ev; try discriminate. simpl. now apply IH.
Qed.

Section Handlers.

Context {D : Type}.
Variable h : event D -> stream_state -> stream_state.
Hypothesis h_ok : stream_handler h.

Lemma deliver_calls (evs : list (event D)) (s : stream_state) :
  s_calls (deliver h evs s) = s_calls s.
Proof.
  revert s. induction evs as [|ev evs IH]; intros s; simpl.
  - reflexivity.
  - rewrite IH. apply h_ok.
Qed.

Lemma deliver_promise (evs : list (event D)) (s : stream_state) :
  s_promise (deliver h evs s)
  = fold_left (fun q ev => promise_step ev q) evs (s_promise s).
Proof.
  revert s. induction evs as [|ev evs IH]; intros s; simpl.
  - reflexivity.
  - rewrite IH. f_equal. apply h_ok.
Qed.

(** The first terminal event being an error, the promise is rejected with
    it, whatever the stream emits afterwards. *)
Lemma first_error_rejects (pre post : list (event D)) (e : error) (s : stream_state) :
  s_promise s = Pending ->
  forallb is_data pre = true ->
  s_promise (deliver h (pre ++ Error e :: post) s) = Rejected (Some e).
Proof.
  intros Hp Hpre.
  rewrite deliver_promise, fold_left_app, (data_keeps_promise pre) by assumption.
  rewrite Hp. simpl. now apply settled_stays.
Qed.


End Handlers.


Lemma keySet_handler (deserialize : bytes -> result jsvalue) :
  stream_handler (Client.keySet_on deserialize).
Proof.
  intros [d| |e] s; simpl; try (split; reflexivity).
  destruct (deserialize (getValue_asU8 d)) as [k|x]; [destruct (truthy k)|];
    split; reflexivity.
Qed.

Lemma entrySet_handler (newEntry : bytes -> bytes -> result jsvalue) :
  stream_handler (Client.entrySet_on newEntry).
Proof.
  intros [d| |e] s; simpl; try (split; reflexivity).
  destruct (newEntry (getKey_asU8 d) (getEntryValue_asU8 d)); split; reflexivity.
Qed.

Lemma values_handler (deserialize : bytes -> result jsvalue) :
  stream_handler (Client.values_on deserialize).
Proof.
  intros [d| |e] s; simpl; split; reflexivity.
Qed.

(** With an object as argument each of the three operations takes the
  streaming branch. *)
Lemma scoped_calls (self : NamedCacheClient) (o : obj) :
  Client.keySet self (VObj o)
  = Streaming (stream_init ("keySet", FilterRequest (cacheName self) (VObj o))) /\
  Client.entrySet self (VObj o)
  = Streaming (stream_init ("entrySet", FilterRequest (cacheName self) (VObj o))) /\
  Client.values self (VObj o)
  = Streaming (stream_init ("values", FilterRequest (cacheName self) (VObj o))).
Proof. repeat split. Qed.

Lemma deliver_cons {D : Type} (h : event D -> stream_state -> stream_state)
      (ev : event D) (evs : list (event D)) (s : stream_state) :
  deliver h (ev :: evs) s = deliver h evs (h ev s).
Proof. reflexivity. Qed.

(** ** Filter-scoped enumerations *)


(** C8.  In each filter-scoped enumeration, when the stream emits an error
  before it ends, the promise is rejected with that error, whatever was
  delivered before and whatever the stream emits afterwards: the caller
  gets no set. *)
Theorem stream_error_rejects
        (deserialize : bytes -> result jsvalue)
        (newEntry : bytes -> bytes -> result jsvalue)
        (self : NamedCacheClient) (o : obj) (e : error)
        (pre post : list (event BytesValue)) (preE postE : list (event Entry)) :
  forallb is_data pre = true ->
  forallb is_data preE = true ->
  (exists s,
      Client.after (Client.keySet_on deserialize) (Client.keySet self (VObj o))
                   (pre ++ Error e :: post) = Some s /\
      s_promise s = Rejected (Some e)) /\
  (exists s,
      Client.after (Client.entrySet_on newEntry) (Client.entrySet self (VObj o))
                   (preE ++ Error e :: postE) = Some s /\
      s_promise s = Rejected (Some e)) /\
  (exists s,
      Client.after (Client.values_on deserialize) (Client.values self (VObj o))
                   (pre ++ Error e :: post) = Some s /\
      s_promise s = Rejected (Some e)).
Proof.
  intros Hpre HpreE.
  destruct (scoped_calls self o) as [Ek [Ee Ev]].
  rewrite Ek, Ee, Ev. unfold Client.after.
  split; [|split]; eexists; (split; [reflexivity|]);
    apply first_error_rejects;
    auto using keySet_handler, entrySet_handler, values_handler.
Qed.

Lemma stream_error_rejects_witness :
  (exists s,
      Client.after (Client.keySet_on digit_codec) (Client.keySet a_client scoped_less)
                   ([Data payload_1; Data payload_x] ++ Error unavailable :: [End])
      = Some s /\
      s_promise s = Rejected (Some unavailable)) /\
  (exists s,
      Client.after (Client.entrySet_on digit_entry) (Client.entrySet a_client scoped_less)
                   ([Data entry_1_0] ++ Error unavailable :: [])
      = Some s /\
      s_promise s = Rejected (Some unavailable)) /\
  (exists s,
      Client.after (Client.values_on digit_codec) (Client.values a_client scoped_less)
                   ([Data payload_1; Data payload_x] ++ Error unavailable :: [End])
      = Some s /\
      s_promise s = Rejected (Some unavailable)).
Proof.
  apply (stream_error_rejects digit_codec digit_entry a_client
           (construct (Expr.KeyAssociatedFilter_ctor
                         (Expr.less "filter." age_extractor (VNum 40)) (VNum 10)))
           unavailable
           [Data payload_1; Data payload_x] [End] [Data entry_1_0] []);
    reflexivity.
Defined.

(** ** One-shot and paged enumerations *)

Lemma next_page_is_page_request (view : StreamedCollection) (cs : list (option bytes)) :
  forallb (fun c => is_page_request (snd c)) (map (Paging.next_page view) cs) = true.
Proof.
  induction cs as [|c cs IH]; simpl; [reflexivity|].
  rewrite IH. unfold Paging.next_page. now destruct (kind view).
Qed.

Lemma pages_from_script (view : StreamedCollection) (ps : list page) (last : page)
      (c : option bytes) :
  forallb more ps = true ->
  more last = false ->
  Paging.pages_from view c (ps ++ [last])
  = (map (Paging.next_page view) (c :: map cookie ps),
     flat_map elements (ps ++ [last])).
Proof.
  intros Hps Hlast. revert c.
  induction ps as [|p ps IH]; intros c; simpl in *.
  - now rewrite Hlast, app_nil_r.
  - apply andb_true_iff in Hps as [Hp Hps].
    rewrite Hp, (IH Hps). reflexivity.
Qed.

(** C5.  Called with a filter, [keySet], [entrySet] and [values] issue one
    streamed call with the filter-scoped request, and whatever the stream
    delivers no further call is issued, so no page request.  Called without
    an argument they issue no call and resolve at once with the paged view
    of their kind.  Iterating the paged view of each kind over pages of
    which all but the last end with a non-empty cookie issues one page
    request for each page: the first carries no cookie, each following one
    carries the cookie the page before ended with. *)
Theorem scoped_is_one_shot_whole_is_paged
        (deserialize : bytes -> result jsvalue)
        (newEntry : bytes -> bytes -> result jsvalue)
        (self : NamedCacheClient) (o : obj)
        (evs : list (event BytesValue)) (evsE : list (event Entry))
        (ps : list page) (last : page) :
  forallb more ps = true ->
  more last = false ->
  (exists s,
      Client.after (Client.keySet_on deserialize) (Client.keySet self (VObj o)) evs
      = Some s /\
      s_calls s = [("keySet", FilterRequest (cacheName self) (VObj o))] /\
      forallb (fun c => negb (is_page_request (snd c))) (s_calls s) = true) /\
  (exists s,
      Client.after (Client.entrySet_on newEntry) (Client.entrySet self (VObj o)) evsE
      = Some s /\
      s_calls s = [("entrySet", FilterRequest (cacheName self) (VObj o))] /\
      forallb (fun c => negb (is_page_request (snd c))) (s_calls s) = true) /\
  (exists s,
      Client.after (Client.values_on deserialize) (Client.values self (VObj o)) evs
      = Some s /\
      s_calls s = [("values", FilterRequest (cacheName self) (VObj o))] /\
      forallb (fun c => negb (is_page_request (snd c))) (s_calls s) = true) /\
  Client.keySet self VUndefined = Paged {| kind := KeySet; owner := self |} /\
  Client.entrySet self VUndefined = Paged {| kind := EntrySet; owner := self |} /\
  Client.values self VUndefined = Paged {| kind := ValueSet; owner := self |} /\
  issued (Client.keySet self VUndefined) = [] /\
  issued (Client.entrySet self VUndefined) = [] /\
  issued (Client.values self VUndefined) = [] /\
  fst (Paging.iterate {| kind := KeySet; owner := self |} (ps ++ [last]))
  = ("nextKeySetPage", PageRequest (cacheName self) None)
    :: map (fun p => ("nextKeySetPage", PageRequest (cacheName self) (cookie p))) ps /\
  fst (Paging.iterate {| kind := EntrySet; owner := self |} (ps ++ [last]))
  = ("nextEntrySetPage", PageRequest (cacheName self) None)
    :: map (fun p => ("nextEntrySetPage", PageRequest (cacheName self) (cookie p))) ps /\
  fst (Paging.iterate {| kind := ValueSet; owner := self |} (ps ++ [last]))
  = ("nextEntrySetPage", PageRequest (cacheName self) None)
    :: map (fun p => ("nextEntrySetPage", PageRequest (cacheName self) (cookie p))) ps.
Proof.
  intros Hps Hlast.
  destruct (scoped_calls self o) as [Ek [Ee Ev]].
  rewrite Ek, Ee, Ev. unfold Client.after.
  split; [|split; [|split]];
    try (eexists; split; [reflexivity|];
         rewrite deliver_calls
           by auto using keySet_handler, entrySet_handler, values_handler;
         split; reflexivity).
  repeat (split; [reflexivity|]).
  unfold Paging.iterate. rewrite !pages_from_script by assumption.
  cbn [fst map]. rewrite !map_map.
  repeat split.
Qed.

Lemma scoped_is_one_shot_whole_is_paged_witness :
  fst (Paging.iterate {| kind := KeySet; owner := a_client |} ([first_page] ++ [last_page]))
  = [("nextKeySetPage", PageRequest "client-cache" None);
     ("nextKeySetPage", PageRequest "client-cache" (Some [Byte.x41]))] /\
  fst (Paging.iterate {| kind := EntrySet; owner := a_client |} ([first_page] ++ [last_page]))
  = [("nextEntrySetPage", PageRequest "client-cache" None);
     ("nextEntrySetPage", PageRequest "client-cache" (Some [Byte.x41]))] /\
  fst (Paging.iterate {| kind := ValueSet; owner := a_client |} ([first_page] ++ [last_page]))
  = [("nextEntrySetPage", PageRequest "client-cache" None);
     ("nextEntrySetPage", PageRequest "client-cache" (Some [Byte.x41]))].
Proof.
  assert (H := scoped_is_one_shot_whole_is_paged digit_codec digit_entry a_client
                 (construct (Expr.KeyAssociatedFilter_ctor
                               (Expr.less "filter." age_extractor (VNum 40)) (VNum 10)))
                 [Data payload_1; End] [Data entry_1_0; End]
                 [first_page] last_page eq_refl eq_refl).
  destruct H as (_ & _ & _ & _ & _ & _ & _ & _ & _ & Hk & He & Hv).
  exact (conj Hk (conj He Hv)).
Defined.

(** ** Unary operations *)

(** The operations that settle through [resolveValue] reject with the error
  the transport reports. *)
Lemma resolveValue_rejects (e : error) (fn : option (comp jsvalue)) :
  u_promise (run_callback (Client.resolveValue (Some e) fn)) = Rejected (Some e).
Proof. reflexivity. Qed.

Lemma siblings_reject (deserialize : bytes -> result jsvalue)
      (key v v' : jsvalue) (ttl : option Z) (e : error)
      (rb : option BytesValue) (rs : option ScalarValue) :
  u_promise (Client.put deserialize key v ttl (Some e, rb)) = Rejected (Some e) /\
  u_promise (Client.putIfAbsent deserialize key v ttl (Some e, rb)) = Rejected (Some e) /\
  u_promise (Client.remove deserialize key (Some e, rb)) = Rejected (Some e) /\
  u_promise (Client.replace deserialize key v (Some e, rb)) = Rejected (Some e) /\
  u_promise (Client.containsKey key (Some e, rs)) = Rejected (Some e) /\
  u_promise (Client.containsValue v (Some e, rs)) = Rejected (Some e) /\
  u_promise (Client.containsEntry key v (Some e, rs)) = Rejected (Some e) /\
  u_promise (Client.isEmpty (Some e, rs)) = Rejected (Some e) /\
  u_promise (Client.removeMapping key v (Some e, rs)) = Rejected (Some e) /\
  u_promise (Client.replaceMapping key v v' (Some e, rs)) = Rejected (Some e) /\
  u_promise (Client.size (Some e, rs)) = Rejected (Some e) /\
  u_promise (Client.clear (Some e)) = Rejected (Some e) /\
  u_promise (Client.addIndex v (Some e)) = Rejected (Some e).
Proof.
  repeat split.
Qed.

(** C2 at the failing reply.  When the transport reports an error and no
  response, [getOrDefault] resolves with the default value and [get] with
  [null]: the error is not passed on. *)
Theorem getOrDefault_swallows_transport_error
        (deserialize : bytes -> result jsvalue) (key d : jsvalue) (e : error) :
  u_promise (Client.getOrDefault deserialize key d (Some e, None)) = Resolved d /\
  u_promise (Client.get deserialize key (Some e, None)) = Resolved VNull /\
  u_promise (Client.getOrDefault deserialize key d (Some e, None)) <> Rejected (Some e).
Proof.
  repeat split. discriminate.
Qed.

(** C7.  When the server answers that no mapping is present, [get] resolves
  with [null] and [getOrDefault] with the default value; the promise is
  not rejected and the codec is not called. *)
Theorem absent_mapping_resolves_default
        (deserialize : bytes -> result jsvalue) (key d : jsvalue) (payload : bytes) :
  let absent := {| getPresent := false; getOptValue_asU8 := payload |} in
  u_promise (Client.get deserialize key (None, Some absent)) = Resolved VNull /\
  u_promise (Client.getOrDefault deserialize key d (None, Some absent)) = Resolved d /\
  u_decoded (Client.getOrDefault deserialize key d (None, Some absent)) = [] /\
  u_uncaught (Client.getOrDefault deserialize key d (None, Some absent)) = [].
Proof.
  repeat split.
Qed.

(** C10.  [toValue] yields [null] for an absent and for an empty payload
  without calling the codec, and calls the codec exactly on a non-empty
  payload.  So [get], [put], [putIfAbsent], [remove] and [replace] resolve
  with [null] when the response carries an empty payload; nothing is
  rejected or thrown, and the codec is not called. *)
Theorem empty_payload_resolves_null
        (deserialize : bytes -> result jsvalue) (key v : jsvalue) (ttl : option Z)
        (present : bool) (b : Byte.byte) (rest : bytes) :
  let empty := {| getValue_asU8 := [] |} in
  let state_null := {| u_promise := Resolved VNull; u_decoded := []; u_uncaught := [] |} in
  Client.toValue deserialize None unary_init = (Ok VNull, unary_init) /\
  Client.toValue deserialize (Some []) unary_init = (Ok VNull, unary_init) /\
  Client.toValue deserialize (Some (b :: rest)) unary_init
  = (deserialize (b :: rest),
     {| u_promise := Pending; u_decoded := [b :: rest]; u_uncaught := [] |}) /\
  Client.get deserialize key
    (None, Some {| getPresent := present; getOptValue_asU8 := [] |}) = state_null /\
  Client.put deserialize key v ttl (None, Some empty) = state_null /\
  Client.putIfAbsent deserialize key v ttl (None, Some empty) = state_null /\
  Client.remove deserialize key (None, Some empty) = state_null /\
  Client.replace deserialize key v (None, Some empty) = state_null.
Proof.
  repeat split. now destruct present.
Qed.

(** * Further properties of the client *)

(** ** Unary operations and the codec *)

(** X1.  When the response of [put], [putIfAbsent], [remove] or [replace],
    or a response of [get] marked present, carries a non-empty payload that
    the codec decodes, the promise resolves with the decoded value; the
    codec is called once, with exactly that payload. *)
Theorem decoded_payload_resolves
        (deserialize : bytes -> result jsvalue) (key v : jsvalue) (ttl : option Z)
        (c : Byte.byte) (rest : bytes) (decoded : jsvalue) :
  deserialize (c :: rest) = Ok decoded ->
  let resp := {| getValue_asU8 := c :: rest |} in
  let done := {| u_promise := Resolved decoded;
                 u_decoded := [c :: rest];
                 u_uncaught := [] |} in
  Client.put deserialize key v ttl (None, Some resp) = done /\
  Client.putIfAbsent deserialize key v ttl (None, Some resp) = done /\
  Client.remove deserialize key (None, Some resp) = done /\
  Client.replace deserialize key v (None, Some resp) = done /\
  Client.get deserialize key
    (None, Some {| getPresent := true; getOptValue_asU8 := c :: rest |}) = done.
Proof.
  intros H resp done.
  unfold Client.put, Client.putIfAbsent, Client.remove, Client.replace,
    Client.get, Client.getOrDefault, run_callback, Client.resolveValue,
    Client.value_of, Client.optional_value_of, Client.toValue,
    Client.Serializer_deserialize, cbind.
  simpl. rewrite H. repeat split.
Qed.

Lemma decoded_payload_resolves_witness :
  Client.put digit_codec (VStr "k") (VNum 7) None (None, Some payload_1)
  = {| u_promise := Resolved (VNum 1); u_decoded := [[Byte.x31]]; u_uncaught := [] |}.
Proof.
  apply (decoded_payload_resolves digit_codec (VStr "k") (VNum 7) None
           Byte.x31 [] (VNum 1)).
  reflexivity.
Defined.

(** X2.  When the codec throws on the payload of such a response, the
    exception leaves the callback: the promise of [put], [putIfAbsent],
    [remove], [replace] and [get] stays pending, it is neither resolved nor
    rejected. *)
Theorem undecodable_payload_leaves_pending
        (deserialize : bytes -> result jsvalue) (key v : jsvalue) (ttl : option Z)
        (c : Byte.byte) (rest : bytes) (x : error) :
  deserialize (c :: rest) = Err x ->
  let resp := {| getValue_asU8 := c :: rest |} in
  let stuck := {| u_promise := Pending;
                  u_decoded := [c :: rest];
                  u_uncaught := [x] |} in
  Client.put deserialize key v ttl (None, Some resp) = stuck /\
  Client.putIfAbsent deserialize key v ttl (None, Some resp) = stuck /\
  Client.remove deserialize key (None, Some resp) = stuck /\
  Client.replace deserialize key v (None, Some resp) = stuck /\
  Client.get deserialize key
    (None, Some {| getPresent := true; getOptValue_asU8 := c :: rest |}) = stuck.
Proof.
  intros H resp stuck.
  unfold Client.put, Client.putIfAbsent, Client.remove, Client.replace,
    Client.get, Client.getOrDefault, run_callback, Client.resolveValue,
    Client.value_of, Client.optional_value_of, Client.toValue,
    Client.Serializer_deserialize, cbind.
  simpl. rewrite H. repeat split.
Qed.

Lemma undecodable_payload_leaves_pending_witness :
  Client.remove digit_codec (VStr "k") (None, Some payload_x)
  = {| u_promise := Pending;
       u_decoded := [[Byte.x78]];
       u_uncaught := [DecodeError "Unexpected token"] |}.
Proof.
  apply (undecodable_payload_leaves_pending digit_codec (VStr "k") (VNum 7) None
           Byte.x78 [] (DecodeError "Unexpected token")).
  reflexivity.
Defined.

(** X3.  In every operation that settles through [resolveValue], and in
    [size], an error reported by the transport wins over the response: the
    promise is rejected with the error whether or not a response came with
    it, and the codec is not called. *)
Theorem transport_error_wins
        (deserialize : bytes -> result jsvalue)
        (key v v' : jsvalue) (ttl : option Z) (e : error)
        (rb : option BytesValue) (rs : option ScalarValue) :
  let failed := {| u_promise := Rejected (Some e); u_decoded := []; u_uncaught := [] |} in
  Client.put deserialize key v ttl (Some e, rb) = failed /\
  Client.putIfAbsent deserialize key v ttl (Some e, rb) = failed /\
  Client.remove deserialize key (Some e, rb) = failed /\
  Client.replace deserialize key v (Some e, rb) = failed /\
  Client.containsKey key (Some e, rs) = failed /\
  Client.containsValue v (Some e, rs) = failed /\
  Client.containsEntry key v (Some e, rs) = failed /\
  Client.isEmpty (Some e, rs) = failed /\
  Client.removeMapping key v (Some e, rs) = failed /\
  Client.replaceMapping key v v' (Some e, rs) = failed /\
  Client.size (Some e, rs) = failed /\
  Client.clear (Some e) = failed /\
  Client.addIndex v (Some e) = failed.
Proof.
  repeat split.
Qed.

(** X4.  The operations that answer with a flag or a number, and [clear] and
    [addIndex], settle their promise on every reply; they never call the
    codec and nothing is thrown. *)
Theorem scalar_operations_settle
        (key v v' : jsvalue) (r : reply ScalarValue) (err : option error) :
  Forall (fun s => u_promise s <> Pending /\ u_decoded s = [] /\ u_uncaught s = [])
         [Client.containsKey key r; Client.containsValue v r;
          Client.containsEntry key v r; Client.isEmpty r;
          Client.removeMapping key v r; Client.replaceMapping key v v' r;
          Client.size r; Client.clear err; Client.addIndex v err].
Proof.
  destruct r as [[e|] [m|]], err as [e'|];
    repeat (constructor; [repeat split; discriminate|]); constructor.
Qed.

(** X5.  With no error and no response, the operations that settle through
    [resolveValue] resolve with [undefined], [getOrDefault] resolves with
    the default value, and [size] rejects, with no reason. *)
Theorem reply_without_error_or_response
        (deserialize : bytes -> result jsvalue)
        (key v v' d : jsvalue) (ttl : option Z) :
  u_promise (Client.put deserialize key v ttl (None, None)) = Resolved VUndefined /\
  u_promise (Client.putIfAbsent deserialize key v ttl (None, None)) = Resolved VUndefined /\
  u_promise (Client.remove deserialize key (None, None)) = Resolved VUndefined /\
  u_promise (Client.replace deserialize key v (None, None)) = Resolved VUndefined /\
  u_promise (Client.containsKey key (None, None)) = Resolved VUndefined /\
  u_promise (Client.containsValue v (None, None)) = Resolved VUndefined /\
  u_promise (Client.containsEntry key v (None, None)) = Resolved VUndefined /\
  u_promise (Client.isEmpty (None, None)) = Resolved VUndefined /\
  u_promise (Client.removeMapping key v (None, None)) = Resolved VUndefined /\
  u_promise (Client.replaceMapping key v v' (None, None)) = Resolved VUndefined /\
  u_promise (Client.clear None) = Resolved VUndefined /\
  u_promise (Client.addIndex v None) = Resolved VUndefined /\
  u_promise (Client.getOrDefault deserialize key d (None, None)) = Resolved d /\
  u_promise (Client.size (None, None)) = Rejected None.
Proof.
  repeat split.
Qed.

(** X6.  [getOrDefault] rejects exactly when the transport reports an error
    together with a response that is marked present; then it rejects with
    that error.  On every other reply that carries an error it resolves
    with the default value. *)
Theorem getOrDefault_rejects_iff
        (deserialize : bytes -> result jsvalue) (key d : jsvalue)
        (err : option error) (resp : option OptionalValue) (reason : option error) :
  (u_promise (Client.getOrDefault deserialize key d (err, resp)) = Rejected reason
   <-> (exists e, err = Some e /\ reason = Some e) /\ Client.present resp = true) /\
  (forall e, err = Some e -> Client.present resp = false ->
             u_promise (Client.getOrDefault deserialize key d (err, resp)) = Resolved d).
Proof.
  split.
  - unfold Client.getOrDefault.
    destruct (Client.present resp) eqn:P.
    + destruct err as [e|].
      * simpl. split.
        -- intros H. injection H as <-. split; [now exists e | reflexivity].
        -- intros [[e' [He Hr]] _]. injection He as <-. now subst reason.
      * split.
        -- intros H. exfalso.
           destruct resp as [m|]; [|discriminate P].
           unfold run_callback, Client.resolveValue, Client.optional_value_of,
             Client.toValue, Client.Serializer_deserialize, cbind in H.
           simpl in H.
           destruct (getOptValue_asU8 m) as [|c rest]; simpl in H; [discriminate|].
           destruct (deserialize (c :: rest)); simpl in H; discriminate.
        -- intros [[e [He _]] _]. discriminate.
    + simpl. split.
      * discriminate.
      * intros [_ H]. discriminate.
  - intros e -> P. unfold Client.getOrDefault. now rewrite P.
Qed.

(** ** The handlers of a filter-scoped call, on any sequence of events *)

Lemma pending_iff_data {D : Type} (evs : list (event D)) :
  fold_left (fun q ev => promise_step ev q) evs Pending = Pending
  <-> forallb is_data evs = true.
Proof.
  split.
  - induction evs as [|ev evs IH]; simpl; [reflexivity|].
    destruct ev as [d| |e]; simpl.
    + exact IH.
    + intros H. rewrite settled_stays in H; discriminate.
    + intros H. rewrite settled_stays in H; discriminate.
  - intros H. now apply data_keeps_promise.
Qed.

Lemma append_settled {D : Type} (evs more_evs : list (event D)) :
  forallb is_data evs = false ->
  fold_left (fun q ev => promise_step ev q) (evs ++ more_evs) Pending
  = fold_left (fun q ev => promise_step ev q) evs Pending.
Proof.
  intros H. rewrite fold_left_app. apply settled_stays.
  intros P. apply pending_iff_data in P. congruence.
Qed.

Lemma console_lines {D : Type} (h : event D -> stream_state -> stream_state) :
  (forall ev s,
      s_console (h ev s)
      = s_console s ++ match ev with Error e => [error_line e] | _ => [] end) ->
  forall evs s,
    s_console (deliver h evs s) = s_console s ++ map error_line (errors_of evs).
Proof.
  intros Hh evs. induction evs as [|ev evs IH]; intros s.
  - simpl. now rewrite app_nil_r.
  - rewrite deliver_cons, IH, Hh.
    destruct ev; simpl; now rewrite <- app_assoc.
Qed.

Lemma keySet_console (deserialize : bytes -> result jsvalue)
      (ev : event BytesValue) (s : stream_state) :
  s_console (Client.keySet_on deserialize ev s)
  = s_console s ++ match ev with Error e => [error_line e] | _ => [] end.
Proof.
  destruct ev as [d| |e]; simpl; [|now rewrite app_nil_r|reflexivity].
  destruct (deserialize (getValue_asU8 d)) as [k|x]; [destruct (truthy k)|];
    simpl; now rewrite app_nil_r.
Qed.

Lemma entrySet_console (newEntry : bytes -> bytes -> result jsvalue)
      (ev : event Entry) (s : stream_state) :
  s_console (Client.entrySet_on newEntry ev s)
  = s_console s ++ match ev with Error e => [error_line e] | _ => [] end.
Proof.
  destruct ev as [d| |e]; simpl; [|now rewrite app_nil_r|reflexivity].
  destruct (newEntry (getKey_asU8 d) (getEntryValue_asU8 d));
    simpl; now rewrite app_nil_r.
Qed.

Lemma values_console (deserialize : bytes -> result jsvalue)
      (ev : event BytesValue) (s : stream_state) :
  s_console (Client.values_on deserialize ev s)
  = s_console s ++ match ev with Error e => [error_line e] | _ => [] end.
Proof.
  destruct ev as [d| |e]; simpl;
    [now rewrite app_nil_r|now rewrite app_nil_r|reflexivity].
Qed.

Lemma values_set (deserialize : bytes -> result jsvalue)
      (evs : list (event BytesValue)) (s : stream_state) :
  s_set (deliver (Client.values_on deserialize) evs s)
  = s_set s ++ map (fun b => executor (deserialize (getValue_asU8 b))) (data_of evs) /\
  s_uncaught (deliver (Client.values_on deserialize) evs s) = s_uncaught s.
Proof.
  revert s. induction evs as [|ev evs IH]; intros s.
  - simpl. now rewrite app_nil_r.
  - rewrite deliver_cons.
    destruct (IH (Client.values_on deserialize ev s)) as [IHs IHu].
    rewrite IHs, IHu.
    destruct ev as [d| |e]; simpl; rewrite <- ?app_assoc; split; reflexivity.
Qed.

Lemma keySet_set (deserialize : bytes -> result jsvalue)
      (evs : list (event BytesValue)) (s : stream_state) :
  s_set (deliver (Client.keySet_on deserialize) evs s)
  = s_set s
    ++ kept_keys (map (fun r => deserialize (getValue_asU8 r)) (data_of evs)) /\
  s_uncaught (deliver (Client.keySet_on deserialize) evs s)
  = s_uncaught s
    ++ thrown (map (fun r => deserialize (getValue_asU8 r)) (data_of evs)).
Proof.
  revert s. induction evs as [|ev evs IH]; intros s.
  - simpl. now rewrite !app_nil_r.
  - rewrite deliver_cons.
    destruct (IH (Client.keySet_on deserialize ev s)) as [IHs IHu].
    rewrite IHs, IHu.
    destruct ev as [d| |e]; simpl; try (split; reflexivity).
    unfold kept_keys, thrown. simpl.
    destruct (deserialize (getValue_asU8 d)) as [k|x]; [destruct (truthy k)|];
      simpl; rewrite <- ?app_assoc; split; reflexivity.
Qed.

Lemma entrySet_set (newEntry : bytes -> bytes -> result jsvalue)
      (evs : list (event Entry)) (s : stream_state) :
  s_set (deliver (Client.entrySet_on newEntry) evs s)
  = s_set s
    ++ map Resolved
         (returned (map (fun e => newEntry (getKey_asU8 e) (getEntryValue_asU8 e))
                        (data_of evs))) /\
  s_uncaught (deliver (Client.entrySet_on newEntry) evs s)
  = s_uncaught s
    ++ thrown (map (fun e => newEntry (getKey_asU8 e) (getEntryValue_asU8 e))
                   (data_of evs)).
Proof.
  revert s. induction evs as [|ev evs IH]; intros s.
  - simpl. now rewrite !app_nil_r.
  - rewrite deliver_cons.
    destruct (IH (Client.entrySet_on newEntry ev s)) as [IHs IHu].
    rewrite IHs, IHu.
    destruct ev as [d| |e]; simpl; try (split; reflexivity).
    unfold returned, thrown. simpl.
    destruct (newEntry (getKey_asU8 d) (getEntryValue_asU8 d));
      simpl; rewrite <- ?app_assoc; split; reflexivity.
Qed.

Lemma kept_keys_truthy (rs : list (result jsvalue)) :
  forallb resolved_truthy (kept_keys rs) = true.
Proof.
  induction rs as [|[k|x] rs IH]; simpl; auto.
  destruct (truthy k) eqn:T; simpl; [now rewrite T|exact IH].
Qed.

Lemma kept_and_thrown (rs : list (result jsvalue)) :
  List.length (kept_keys rs) + List.length (thrown rs) <= List.length rs.
Proof.
  induction rs as [|[k|x] rs IH]; simpl; [lia| |].
  - rewrite length_app. destruct (truthy k); simpl; lia.
  - simpl. lia.
Qed.

Lemma returned_and_thrown {A : Type} (rs : list (result A)) :
  List.length (returned rs) + List.length (thrown rs) = List.length rs.
Proof.
  induction rs as [|[a|x] rs IH]; simpl; lia.
Qed.

(** X7.  The promise of a filter-scoped enumeration is pending exactly as
    long as the stream has delivered nothing but data: no data event settles
    it, and the first [end] or [error] does. *)
Theorem pending_until_terminal_event
        (deserialize : bytes -> result jsvalue)
        (newEntry : bytes -> bytes -> result jsvalue)
        (self : NamedCacheClient) (o : obj)
        (evs : list (event BytesValue)) (evsE : list (event Entry)) :
  (exists s,
      Client.after (Client.keySet_on deserialize) (Client.keySet self (VObj o)) evs
      = Some s /\
      (s_promise s = Pending <-> forallb is_data evs = true)) /\
  (exists s,
      Client.after (Client.entrySet_on newEntry) (Client.entrySet self (VObj o)) evsE
      = Some s /\
      (s_promise s = Pending <-> forallb is_data evsE = true)) /\
  (exists s,
      Client.after (Client.values_on deserialize) (Client.values self (VObj o)) evs
      = Some s /\
      (s_promise s = Pending <-> forallb is_data evs = true)).
Proof.
  destruct (scoped_calls self o) as [Ek [Ee Ev]].
  rewrite Ek, Ee, Ev. unfold Client.after.
  split; [|split]; eexists; (split; [reflexivity|]);
    rewrite deliver_promise
      by auto using keySet_handler, entrySet_handler, values_handler;
    apply pending_iff_data.
Qed.

(** X8.  Once the stream has emitted [end] or [error], nothing it emits
    later changes the promise: after [end] a later [error] does not reject
    it, after [error] a later [end] does not resolve it. *)
Theorem first_terminal_event_decides
        (deserialize : bytes -> result jsvalue)
        (newEntry : bytes -> bytes -> result jsvalue)
        (self : NamedCacheClient) (o : obj)
        (evs later : list (event BytesValue)) (evsE laterE : list (event Entry)) :
  forallb is_data evs = false ->
  forallb is_data evsE = false ->
  (exists s1 s2,
      Client.after (Client.keySet_on deserialize) (Client.keySet self (VObj o)) evs
      = Some s1 /\
      Client.after (Client.keySet_on deserialize) (Client.keySet self (VObj o))
                   (evs ++ later) = Some s2 /\
      s_promise s1 <> Pending /\ s_promise s2 = s_promise s1) /\
  (exists s1 s2,
      Client.after (Client.entrySet_on newEntry) (Client.entrySet self (VObj o)) evsE
      = Some s1 /\
      Client.after (Client.entrySet_on newEntry) (Client.entrySet self (VObj o))
                   (evsE ++ laterE) = Some s2 /\
      s_promise s1 <> Pending /\ s_promise s2 = s_promise s1) /\
  (exists s1 s2,
      Client.after (Client.values_on deserialize) (Client.values self (VObj o)) evs
      = Some s1 /\
      Client.after (Client.values_on deserialize) (Client.values self (VObj o))
                   (evs ++ later) = Some s2 /\
      s_promise s1 <> Pending /\ s_promise s2 = s_promise s1).
Proof.
  intros H HE.
  destruct (scoped_calls self o) as [Ek [Ee Ev]].
  rewrite Ek, Ee, Ev. unfold Client.after.
  split; [|split]; do 2 eexists;
    (split; [reflexivity|]); (split; [reflexivity|]);
    rewrite !deliver_promise
      by auto using keySet_handler, entrySet_handler, values_handler;
    simpl s_promise;
    (split; [intros P; apply pending_iff_data in P; congruence
            | now apply append_settled]).
Qed.

Lemma first_terminal_event_decides_witness :
  exists s1 s2,
    Client.after (Client.values_on digit_codec) (Client.values a_client scoped_less)
                 [Data payload_1; End] = Some s1 /\
    Client.after (Client.values_on digit_codec) (Client.values a_client scoped_less)
                 ([Data payload_1; End] ++ [Error unavailable]) = Some s2 /\
    s_promise s1 <> Pending /\ s_promise s2 = s_promise s1.
Proof.
  apply (first_terminal_event_decides digit_codec digit_entry a_client
           (construct (Expr.KeyAssociatedFilter_ctor
                         (Expr.less "filter." age_extractor (VNum 40)) (VNum 10)))
           [Data payload_1; End] [Error unavailable]
           [Error unavailable] [End]);
    reflexivity.
Defined.

(** X9.  Every [error] event writes one line to the console, the text
    ["*** ERROR: "] followed by that error, in the order of the events, also
    when the promise is already settled and the error can no longer reject
    it; no other event writes to the console. *)
Theorem every_error_is_logged
        (deserialize : bytes -> result jsvalue)
        (newEntry : bytes -> bytes -> result jsvalue)
        (self : NamedCacheClient) (o : obj)
        (evs : list (event BytesValue)) (evsE : list (event Entry)) :
  (exists s,
      Client.after (Client.keySet_on deserialize) (Client.keySet self (VObj o)) evs
      = Some s /\
      s_console s = map error_line (errors_of evs) /\
      List.length (s_console s) = List.length (errors_of evs)) /\
  (exists s,
      Client.after (Client.entrySet_on newEntry) (Client.entrySet self (VObj o)) evsE
      = Some s /\
      s_console s = map error_line (errors_of evsE) /\
      List.length (s_console s) = List.length (errors_of evsE)) /\
  (exists s,
      Client.after (Client.values_on deserialize) (Client.values self (VObj o)) evs
      = Some s /\
      s_console s = map error_line (errors_of evs) /\
      List.length (s_console s) = List.length (errors_of evs)).
Proof.
  destruct (scoped_calls self o) as [Ek [Ee Ev]].
  rewrite Ek, Ee, Ev. unfold Client.after.
  split; [|split]; eexists; (split; [reflexivity|]).
  - rewrite (console_lines _ (keySet_console deserialize)). simpl.
    split; [reflexivity | apply length_map].
  - rewrite (console_lines _ (entrySet_console newEntry)). simpl.
    split; [reflexivity | apply length_map].
  - rewrite (console_lines _ (values_console deserialize)). simpl.
    split; [reflexivity | apply length_map].
Qed.

(** X10.  Whatever the stream emits, the set of [values(filter)] has one
    member for every data event, in the order of delivery: resolved with the
    decoded value, or rejected with the error the codec threw.  The handler
    itself never throws, and data delivered after the promise settled is
    still added to the set the caller holds. *)
Theorem values_set_on_any_stream
        (deserialize : bytes -> result jsvalue)
        (self : NamedCacheClient) (o : obj) (evs : list (event BytesValue)) :
  exists s,
    Client.after (Client.values_on deserialize) (Client.values self (VObj o)) evs
    = Some s /\
    s_set s = map (fun b => executor (deserialize (getValue_asU8 b))) (data_of evs) /\
    List.length (s_set s) = List.length (data_of evs) /\
    s_uncaught s = [].
Proof.
  destruct (scoped_calls self o) as [_ [_ Ev]].
  rewrite Ev. unfold Client.after.
  eexists. split; [reflexivity|].
  destruct (values_set deserialize evs
              (stream_init ("values", FilterRequest (cacheName self) (VObj o))))
    as [Hs Hu].
  rewrite Hs, Hu. simpl. repeat split. apply length_map.
Qed.

(** X11.  Whatever the stream emits, the set of [keySet(filter)] holds, in
    the order of delivery, the decoded keys that are truthy, each as a
    resolved promise; the exceptions of the codec are exactly the ones that
    left the handler.  So no member is a rejected promise or a falsy key,
    and members and escaped exceptions together are at most the data
    events. *)
Theorem keySet_set_on_any_stream
        (deserialize : bytes -> result jsvalue)
        (self : NamedCacheClient) (o : obj) (evs : list (event BytesValue)) :
  let decoded := map (fun r => deserialize (getValue_asU8 r)) (data_of evs) in
  exists s,
    Client.after (Client.keySet_on deserialize) (Client.keySet self (VObj o)) evs
    = Some s /\
    s_set s = kept_keys decoded /\
    s_uncaught s = thrown decoded /\
    forallb resolved_truthy (s_set s) = true /\
    List.length (s_set s) + List.length (s_uncaught s) <= List.length (data_of evs).
Proof.
  intros decoded.
  destruct (scoped_calls self o) as [Ek _].
  rewrite Ek. unfold Client.after.
  eexists. split; [reflexivity|].
  destruct (keySet_set deserialize evs
              (stream_init ("keySet", FilterRequest (cacheName self) (VObj o))))
    as [Hs Hu].
  rewrite Hs, Hu. simpl. fold decoded.
  split; [reflexivity|]. split; [reflexivity|].
  split; [apply kept_keys_truthy|].
  pose proof (kept_and_thrown decoded) as L.
  unfold decoded in L at 3. now rewrite length_map in L.
Qed.

(** X12.  Whatever the stream emits, the set of [entrySet(filter)] holds, in
    the order of delivery, one resolved promise for every data event whose
    entry could be built; the exceptions of the entry constructor are
    exactly the ones that left the handler, so every data event is either a
    member or an escaped exception. *)
Theorem entrySet_set_on_any_stream
        (newEntry : bytes -> bytes -> result jsvalue)
        (self : NamedCacheClient) (o : obj) (evs : list (event Entry)) :
  let built := map (fun e => newEntry (getKey_asU8 e) (getEntryValue_asU8 e))
                   (data_of evs) in
  exists s,
    Client.after (Client.entrySet_on newEntry) (Client.entrySet self (VObj o)) evs
    = Some s /\
    s_set s = map Resolved (returned built) /\
    s_uncaught s = thrown built /\
    forallb is_resolved (s_set s) = true /\
    List.length (s_set s) + List.length (s_uncaught s) = List.length (data_of evs).
Proof.
  intros built.
  destruct (scoped_calls self o) as [_ [Ee _]].
  rewrite Ee. unfold Client.after.
  eexists. split; [reflexivity|].
  destruct (entrySet_set newEntry evs
              (stream_init ("entrySet", FilterRequest (cacheName self) (VObj o))))
    as [Hs Hu].
  rewrite Hs, Hu. simpl. fold built.
  split; [reflexivity|]. split; [reflexivity|].
  split.
  - induction (returned built); simpl; auto.
  - rewrite length_map.
    pose proof (returned_and_thrown built) as L.
    unfold built in L at 3. now rewrite length_map in L.
Qed.

(** * Further properties of the filters *)

Lemma key_associations_wrap (f h : jsvalue) :
  key_associations (Expr.keyAssociated f h)
  = 1 + key_associations f + key_associations h.
Proof.
  change (Expr.keyAssociated f h)
    with (VObj [(TAG, VStr "KeyAssociatedFilter"); ("filter", f); ("hostKey", h)]).
  cbn [key_associations].
  change (Expr.is_key_associated
            (VObj [(TAG, VStr "KeyAssociatedFilter"); ("filter", f); ("hostKey", h)]))
    with true.
  cbn [key_associations]. lia.
Qed.

(** X13.  The constructor of [KeyAssociatedFilter] can be applied to its own
    result any number of times: [n] applications around a filter [f] never
    fail and add [n] key-association nodes, all but the outermost one
    wrapped by another filter. *)
Theorem key_association_nests_to_any_depth (n : nat) (f hostKey : jsvalue) :
  key_associations hostKey = 0 ->
  key_associations (associate n f hostKey) = n + key_associations f /\
  Expr.is_key_associated (associate (S n) f hostKey) = true /\
  wrapped_key_associations (associate (S n) f hostKey) = n + key_associations f.
Proof.
  intros Hh.
  assert (K : forall m, key_associations (associate m f hostKey)
                        = m + key_associations f).
  { induction m as [|m IH]; [reflexivity|].
    cbn [associate]. rewrite key_associations_wrap, IH, Hh. lia. }
  split; [apply K|]. split; [reflexivity|].
  unfold wrapped_key_associations. rewrite K.
  change (Expr.is_key_associated (associate (S n) f hostKey)) with true.
  cbn [Nat.add]. lia.
Qed.

Lemma key_association_nests_to_any_depth_witness :
  key_associations (associate 3 (Expr.less "filter." age_extractor (VNum 40)) (VNum 10))
  = 3 + key_associations (Expr.less "filter." age_extractor (VNum 40)).
Proof.
  apply (key_association_nests_to_any_depth 3
           (Expr.less "filter." age_extractor (VNum 40)) (VNum 10)).
  reflexivity.
Defined.

(** X14.  Overwriting the tag in the constructor of [BetweenFilter] does not
    move it: the node of [between] has the fields of the conjunction it
    extends, in the same order and with the tag first, followed by [from]
    and [to]; no field occurs twice. *)
Theorem between_field_order (pkg : string) (e y z : jsvalue) (lo hi : option bool) :
  let lower := if defaulted false lo then Expr.greaterEquals pkg e y
               else Expr.greater pkg e y in
  let upper := if defaulted false hi then Expr.lessEquals pkg e z
               else Expr.less pkg e z in
  exists a b : obj,
    Expr.and pkg lower upper = Ok (VObj a) /\
    Expr.between pkg e y z lo hi = Ok (VObj b) /\
    field_names b = field_names a ++ ["from"; "to"] /\
    hd_error (field_names b) = Some TAG /\
    NoDup (field_names b).
Proof.
  intros lower upper.
  unfold Expr.and, Expr.between, Expr.new_result.
  rewrite between_script. subst lower upper. rewrite between_super_ok.
  do 2 eexists. split; [reflexivity|]. split; [reflexivity|].
  cbn -[Expr.filterName].
  split; [reflexivity|]. split; [reflexivity|].
  repeat constructor; simpl; intuition discriminate.
Qed.

(** * Elements and decode failures of a filter-scoped enumeration *)




